(** * A shallow embedding of the [Matrix] class of [src/index.ts]

    The class stores a dense matrix in a [Float64Array] in row-major order,
    next to its [rows] and [columns] fields.  Elements are IEEE 754 binary64
    numbers, modelled by Rocq's primitive floats; the two dimension fields are
    modelled by [nat] (the unsigned integers of the data model).

    Every method is embedded as a computation over the receiver: it reads and
    writes the fields of [this], may print a warning on the console, and
    completes either normally or by throwing an [Error].

    Buffers are values here.  The class never shares one between two
    objects: the constructor, [set] and [map] each allocate a new
    [Float64Array].  The one aliased call, a method given its own receiver as
    argument, is covered by [elementwise_aliased].  Rocq's floats have a
    single [NaN]; its payload, which JavaScript cannot observe through
    arithmetic either, is not modelled. *)

From Stdlib Require Import Floats String DecimalString Lia.
From stdpp Require Import base list.

Local Open Scope nat_scope.

(* ------------------------------------------------------------------ *)
(** ** Typed arrays *)

(** A [Float64Array] is a fixed-length sequence of doubles. *)
Abbreviation Float64Array := (list float).

(** [ToNumber]: reading past the end of a typed array gives [undefined],
    which arithmetic and typed-array stores turn into [NaN]. *)
Definition ToNumber (v : option float) : float := default nan v.

(** [arr[i]] in a numeric context. *)
Definition elem (arr : Float64Array) (i : nat) : float := ToNumber (arr !! i).

(** [new Float64Array(n)]: [n] elements, all [+0]. *)
Definition zeros (n : nat) : Float64Array := replicate n 0%float.

(** [for (let i = 0; i < n; i++) body] over the local variables [L].
    [arr[i] = v] on a typed array is stdpp's [<[i:=v]> arr]: a store past
    the end is ignored. *)
Definition for_loop {L : Type} (n : nat) (body : nat -> L -> L) (s : L) : L :=
  foldl (fun s i => body i s) s (seq 0 n).

(* ------------------------------------------------------------------ *)
(** ** Objects, errors and the method monad *)

Record Matrix := mkMatrix {
  rows : nat;
  columns : nat;
  array : Float64Array
}.

(** [throw new Error(message)]. *)
Inductive Error := mkError (message : string).

(** What a method returns: the receiver itself ([return this]) or a freshly
    constructed object. *)
Inductive Ref := This | New (m : Matrix).

Inductive Completion (A : Type) :=
| Normal (v : A)
| Throw (e : Error).
Arguments Normal {A} v.
Arguments Throw {A} e.

(** The state a method runs in: the fields of the receiver and the lines
    written by [console.warn] so far. *)
Record State := mkState {
  this : Matrix;
  console : list string
}.

Definition Method (A : Type) : Type := State -> Completion A * State.

Definition ret {A} (v : A) : Method A := fun s => (Normal v, s).

Definition bind {A B} (m : Method A) (k : A -> Method B) : Method B :=
  fun s =>
    match m s with
    | (Normal v, s') => k v s'
    | (Throw e, s') => (Throw e, s')
    end.

Declare Scope method_scope.
Delimit Scope method_scope with method.
Notation "x <- m ;; k" := (bind m (fun x => k))
  (at level 20, m at level 99, k at level 200, only parsing) : method_scope.
Notation "m ;; k" := (bind m (fun _ => k))
  (at level 100, k at level 200, only parsing, right associativity) : method_scope.
Local Open Scope method_scope.

Definition throw {A} (message : string) : Method A :=
  fun s => (Throw (mkError message), s).

Definition warn (message : string) : Method unit :=
  fun s => (Normal tt, mkState (this s) (console s ++ [message])).

Definition get_this : Method Matrix := fun s => (Normal (this s), s).

Definition put_rows (n : nat) : Method unit :=
  fun s => (Normal tt, mkState (mkMatrix n (columns (this s)) (array (this s))) (console s)).

Definition put_columns (n : nat) : Method unit :=
  fun s => (Normal tt, mkState (mkMatrix (rows (this s)) n (array (this s))) (console s)).

Definition put_array (arr : Float64Array) : Method unit :=
  fun s => (Normal tt, mkState (mkMatrix (rows (this s)) (columns (this s)) arr) (console s)).

(** [when c m]: an [if] without [else]. *)
Definition when (c : bool) (m : Method unit) : Method unit :=
  if c then m else ret tt.

(** A loop whose body is itself a computation over the receiver; it stops
    at the first throw. *)
Fixpoint for_each (l : list nat) (body : nat -> Method unit) : Method unit :=
  match l with
  | [] => ret tt
  | i :: l' => body i ;; for_each l' body
  end.

(** [this.array.forEach((_, i) => body)]: the length is read once, the
    callback runs for the indices [0 .. length - 1] in increasing order. *)
Definition forEach (body : nat -> Method unit) : Method unit :=
  self <- get_this ;;
  for_each (seq 0 (length (array self))) body.

(** [obj.m(...)] for an object other than the receiver: [m] runs with [obj]
    as its [this] and shares the console. *)
Definition call_on {A} (obj : Matrix) (m : Method A) : Method (A * Matrix) :=
  fun s =>
    match m (mkState obj (console s)) with
    | (Normal v, s') => (Normal (v, this s'), mkState (this s) (console s'))
    | (Throw e, s') => (Throw e, mkState (this s) (console s'))
    end.

(** A method call on [self] from a quiet console. *)
Definition run {A} (m : Method A) (self : Matrix) : Completion A * State :=
  m (mkState self []).

(* ------------------------------------------------------------------ *)
(** ** Messages *)

Definition show (n : nat) : string := NilEmpty.string_of_uint (Nat.to_uint n).

Definition shape (m : Matrix) : string :=
  (show (rows m) ++ " x " ++ show (columns m))%string.

Definition dimensions_not_same (verb : string) (self a : Matrix) : string :=
  ("Cannot " ++ verb ++ ". Matrices dimensions aren't the same: "
     ++ shape self ++ " / " ++ shape a)%string.

Definition incompatible_dimensions (self a : Matrix) : string :=
  ("Cannot multiply. Matrices have incompatible dimensions: "
     ++ shape self ++ " / " ++ shape a)%string.

Definition different_lengths (n k : nat) : string :=
  ("Cannot set. Arrays have different lengths: " ++ show n ++ " / " ++ show k
     ++ ". Probably their dimensions aren't the same.")%string.

Definition same_dimensions (self a : Matrix) : bool :=
  (rows self =? rows a) && (columns self =? columns a).

(* ------------------------------------------------------------------ *)
(** ** The class *)

(** [new Matrix(rows, columns)]. *)
Definition new_Matrix (r c : nat) : Matrix := mkMatrix r c (zeros (r * c)).

(** The argument of [set]: another matrix, or a [Float64Array] / [number[]].
    [Matrix] is the only class of the repository that implements
    [MatrixInterface], so a shape-bearing argument passes [instanceof Matrix]. *)
Inductive Source :=
| FromMatrix (a : Matrix)
| FromSequence (a : Float64Array).

Definition set (a : Source) : Method Ref :=
  match a with
  | FromMatrix m =>
      self <- get_this ;;
      when (negb (same_dimensions self m))
           (throw (dimensions_not_same "set" self m)) ;;
      put_array (array m)
  | FromSequence _ => ret tt
  end ;;
  match a with
  | FromSequence l =>
      self <- get_this ;;
      when (negb (length (array self) =? length l))
           (warn (different_lengths (length (array self)) (length l))) ;;
      put_array l
  | FromMatrix _ => ret tt
  end ;;
  ret This.

Definition clone : Method Ref :=
  self <- get_this ;;
  r <- call_on (new_Matrix (rows self) (columns self))
               (set (FromSequence (array self))) ;;
  ret (New (snd r)).

(** [predicate] receives the value, its index and the array being mapped. *)
Definition map (predicate : float -> nat -> Float64Array -> float) : Method Ref :=
  self <- get_this ;;
  put_array (imap (fun i x => predicate x i (array self)) (array self)) ;;
  ret This.

(** [random k] is the value of the [k]-th call of [Math.random()] made by
    this invocation. *)
Definition randomize (random : nat -> float) : Method Ref :=
  map (fun _ i _ => random i) ;;
  ret This.

(** [this.array[i] op= v]: the element is read, then [v] is evaluated (it
    may read the receiver's buffer), then the result is stored. *)
Definition update (op : float -> float -> float) (i : nat) (v : Float64Array -> float)
  : Method unit :=
  self <- get_this ;;
  put_array (<[i := op (elem (array self) i) (v (array self))]> (array self)).

(** The common body of [add], [subtract] and [hadamardProduct]: [verb] is
    the word of the error message, [op] the compound assignment. *)
Definition elementwise (verb : string) (op : float -> float -> float) (a : Matrix)
  : Method Ref :=
  self <- get_this ;;
  when (negb (same_dimensions self a))
       (throw (dimensions_not_same verb self a)) ;;
  forEach (fun i => update op i (fun _ => elem (array a) i)) ;;
  ret This.

(** The same body when the argument is the receiver itself ([m.add(m)]):
    [a.array] is then the buffer being updated. *)
Definition elementwise_self (verb : string) (op : float -> float -> float)
  : Method Ref :=
  self <- get_this ;;
  when (negb (same_dimensions self self))
       (throw (dimensions_not_same verb self self)) ;;
  forEach (fun i => update op i (fun current => elem current i)) ;;
  ret This.

Definition add : Matrix -> Method Ref := elementwise "add" PrimFloat.add.
Definition subtract : Matrix -> Method Ref := elementwise "subtract" PrimFloat.sub.
Definition hadamardProduct : Matrix -> Method Ref := elementwise "product" PrimFloat.mul.

Definition multiplyByScalar (s : float) : Method Ref :=
  forEach (fun i => update PrimFloat.mul i (fun _ => s)) ;;
  ret This.

(** The three nested loops of [multiply], filling the local [result]. *)
Definition product_buffer (self a : Matrix) : Float64Array :=
  for_loop (rows self) (fun i result =>
    let iR := i * rows a in
    let iC := i * columns a in
    for_loop (columns a) (fun j result =>
      let value :=
        for_loop (rows a) (fun k value =>
          (value + elem (array self) (iR + k) * elem (array a) (k * columns a + j))%float)
          0%float in
      <[iC + j := value]> result) result)
    (zeros (rows self * columns a)).

Definition multiply (a : Matrix) : Method Ref :=
  self <- get_this ;;
  when (negb (columns self =? rows a))
       (throw (incompatible_dimensions self a)) ;;
  let result := product_buffer self a in
  put_columns (columns a) ;;
  set (FromSequence result).

(** The two nested loops of [transpose], filling the local [result]. *)
Definition transposed_buffer (self : Matrix) : Float64Array :=
  for_loop (rows self) (fun i result =>
    for_loop (columns self) (fun j result =>
      <[j * rows self + i := elem (array self) (i * columns self + j)]> result) result)
    (zeros (rows self * columns self)).

Definition transpose : Method Ref :=
  self <- get_this ;;
  let result := transposed_buffer self in
  put_rows (columns self) ;;
  put_columns (rows self) ;;
  set (FromSequence result).

(* ------------------------------------------------------------------ *)
(** ** Vocabulary of the specification *)

(** The invariant of the data model: the buffer holds [rows * columns]
    elements. *)
Definition wf (m : Matrix) : Prop := length (array m) = rows m * columns m.

(** [fsum n f] is [f 0 + f 1 + ... + f (n-1)], added to an initial [+0] one
    term at a time in increasing index order. *)
Fixpoint fsum (n : nat) (f : nat -> float) : float :=
  match n with
  | 0 => 0%float
  | S k => (fsum k f + f k)%float
  end.

(** Entry [(i, j)] of the matrix product, over the flat buffers. *)
Definition dot (self a : Matrix) (i j : nat) : float :=
  fsum (columns self)
       (fun k => (elem (array self) (i * columns self + k)
                  * elem (array a) (k * columns a + j))%float).

(** The object an expression [obj.m(...)] evaluates to, when it does. *)
Definition value_of (self_out : Completion Ref * State) : option Matrix :=
  match self_out with
  | (Normal This, s) => Some (this s)
  | (Normal (New m), _) => Some m
  | (Throw _, _) => None
  end.

(** [M.clone().add(A).subtract(A)]. *)
Definition clone_add_subtract (M A : Matrix) : option Matrix :=
  c ← value_of (run clone M);
  c' ← value_of (run (add A) c);
  value_of (run (subtract A) c').

(** [M.transpose().transpose()]. *)
Definition transpose_twice (M : Matrix) : option Matrix :=
  t ← value_of (run transpose M);
  value_of (run transpose t).

(** The warning [set] prints for a sequence of another length. *)
Definition length_warning (old new : Float64Array) : list string :=
  if length old =? length new then []
  else [different_lengths (length old) (length new)].

(** Two nested counting loops that store [val i j] at the flat index
    [idx i j] of a local buffer, for [i < R] outside and [j < C] inside. *)
Definition fill (R C : nat) (idx : nat -> nat -> nat) (val : nat -> nat -> float)
    (init : Float64Array) : Float64Array :=
  for_loop R (fun i result =>
    for_loop C (fun j result => <[idx i j := val i j]> result) result) init.

(** Loop invariant of [fill]: the buffer has [N] elements and the cells
    written before iteration [(i, j)] hold their values. *)
Definition filled_upto (R C N : nat) (idx : nat -> nat -> nat)
    (val : nat -> nat -> float) (i j : nat) (result : Float64Array) : Prop :=
  length result = N /\
  forall i' j', i' < R -> j' < C -> i' < i \/ (i' = i /\ j' < j) ->
    result !! idx i' j' = Some (val i' j').

(** [m] throws [Error(message)] and leaves every field of the receiver,
    and the console, as they were. *)
Definition rejects (m : Method Ref) (self : Matrix) (message : string) : Prop :=
  run m self = (Throw (mkError message), mkState self []).

(** [m] completes normally and returns the receiver. *)
Definition completes (m : Method Ref) (self : Matrix) : Prop :=
  exists s', run m self = (Normal This, s').

(** [m] throws [Error(message)] without touching the receiver when
    [mismatch] holds, and completes otherwise. *)
Definition throws_exactly_when (mismatch : Prop) (m : Method Ref) (self : Matrix)
    (message : string) : Prop :=
  (mismatch -> rejects m self message) /\ (~ mismatch -> completes m self).

(** [m] returns the receiver with the same shape, a buffer of the same
    length, and every element [x] at index [i] replaced by [op x a[i]]. *)
Definition combines_in_place (op : float -> float -> float) (m : Method Ref)
    (self a : Matrix) : Prop :=
  exists s', run m self = (Normal This, s')
    /\ rows (this s') = rows self
    /\ columns (this s') = columns self
    /\ length (array (this s')) = length (array self)
    /\ forall i x, array self !! i = Some x ->
         array (this s') !! i = Some (op x (elem (array a) i)).

(** After the call, however it completes, [rows] and [columns] are what
    they were and the buffer has as many elements as before. *)
Definition keeps_shape (m : Method Ref) (self : Matrix) : Prop :=
  rows (this (snd (run m self))) = rows self
  /\ columns (this (snd (run m self))) = columns self
  /\ length (array (this (snd (run m self)))) = length (array self).

(** The object [self.m(...)] evaluates to; [call m self ≫= call m'] is the
    chained call [self.m(...).m'(...)]. *)
Definition call (m : Method Ref) (self : Matrix) : option Matrix :=
  value_of (run m self).

(** The lines a call on [self] writes to the console. *)
Definition printed {A : Type} (m : Method A) (self : Matrix) : list string :=
  console (snd (run m self)).

(** The receiver's buffer after a call on [self], however it completes. *)
Definition buffer_after (m : Method Ref) (self : Matrix) : Float64Array :=
  array (this (snd (run m self))).

(** After the call, however it completes, the receiver's buffer has
    [rows * columns] elements. *)
Definition keeps_invariant (m : Method Ref) (self : Matrix) : Prop :=
  wf (this (snd (run m self))).

(** [A.multiply(B).transpose()]. *)
Definition transpose_of_product (A B : Matrix) : option Matrix :=
  call (multiply B) A ≫= call transpose.

(** [B.transpose().multiply(A.transpose())]. *)
Definition product_of_transposes (A B : Matrix) : option Matrix :=
  At ← call transpose A;
  call transpose B ≫= call (multiply At).

(* ------------------------------------------------------------------ *)
(** ** Loops *)

Section Loops.
Context {L : Type}.
Implicit Types (body : nat -> L -> L) (s : L).

Lemma for_loop_S n body s :
  for_loop (S n) body s = body n (for_loop n body s).
Proof.
  unfold for_loop. rewrite seq_S, foldl_app. reflexivity.
Qed.

(** Loop-invariant rule: [P i] holds before iteration [i]. *)
Lemma for_loop_invariant (P : nat -> L -> Prop) n body s :
  P 0 s ->
  (forall i t, i < n -> P i t -> P (S i) (body i t)) ->
  P n (for_loop n body s).
Proof.
  intros H0 Hstep. induction n as [|n IH].
  - exact H0.
  - rewrite for_loop_S. apply Hstep; [lia|].
    apply IH. intros i t Hi. apply Hstep. lia.
Qed.
End Loops.

(** The accumulator loop of [multiply] is the left-to-right sum. *)
Lemma accumulate_fsum (f : nat -> float) n :
  for_loop n (fun k value => (value + f k)%float) 0%float = fsum n f.
Proof.
  induction n as [|n IH]; [reflexivity|].
  rewrite for_loop_S, IH. reflexivity.
Qed.

Lemma elem_lookup (arr : Float64Array) i x : arr !! i = Some x -> elem arr i = x.
Proof. unfold elem. intros ->. reflexivity. Qed.

Lemma lookup_elem (arr : Float64Array) i :
  i < length arr -> arr !! i = Some (elem arr i).
Proof.
  intros Hi. destruct (lookup_lt_is_Some_2 arr i Hi) as [x Hx].
  rewrite (elem_lookup _ _ _ Hx). exact Hx.
Qed.

(** In-place read-modify-write of the indices [k .. k+n-1], in order. *)
Lemma in_place_lookup (g : nat -> float -> float) n :
  forall k (arr : Float64Array) i,
    foldl (fun acc j => <[j := g j (elem acc j)]> acc) arr (seq k n) !! i
    = if bool_decide (k <= i < k + n) then g i <$> arr !! i else arr !! i.
Proof.
  induction n as [|n IH]; intros k arr i; simpl.
  - rewrite bool_decide_eq_false_2 by lia. reflexivity.
  - rewrite IH. destruct (decide (i = k)) as [->|Hne].
    + rewrite bool_decide_eq_false_2 by lia.
      rewrite bool_decide_eq_true_2 by lia.
      destruct (arr !! k) as [x|] eqn:Hk.
      * rewrite list_lookup_insert_eq by (eapply lookup_lt_Some; eassumption).
        rewrite (elem_lookup _ _ _ Hk). reflexivity.
      * rewrite list_insert_ge by (apply lookup_ge_None; assumption).
        rewrite Hk. reflexivity.
    + rewrite list_lookup_insert_ne by congruence.
      destruct (bool_decide (S k <= i < S k + n)) eqn:E.
      * apply bool_decide_eq_true in E. rewrite bool_decide_eq_true_2 by lia. reflexivity.
      * apply bool_decide_eq_false in E. rewrite bool_decide_eq_false_2 by lia. reflexivity.
Qed.

Lemma in_place_imap (g : nat -> float -> float) (arr : Float64Array) :
  foldl (fun acc j => <[j := g j (elem acc j)]> acc) arr (seq 0 (length arr))
  = imap g arr.
Proof.
  apply list_eq. intros i. rewrite in_place_lookup, list_lookup_imap.
  destruct (arr !! i) as [x|] eqn:Hi; simpl.
  - apply lookup_lt_Some in Hi as Hlt.
    rewrite bool_decide_eq_true_2 by lia. reflexivity.
  - destruct (bool_decide _); reflexivity.
Qed.

(* ------------------------------------------------------------------ *)
(** ** Running the methods *)

Lemma state_eta (s : State) :
  mkState (mkMatrix (rows (this s)) (columns (this s)) (array (this s))) (console s) = s.
Proof. destruct s as [[r c arr] log]. reflexivity. Qed.

Lemma for_each_update op (v : nat -> Float64Array -> float) l :
  forall s,
    for_each l (fun i => update op i (v i)) s
    = (Normal tt,
       mkState (mkMatrix (rows (this s)) (columns (this s))
                  (foldl (fun acc j => <[j := op (elem acc j) (v j acc)]> acc)
                         (array (this s)) l))
               (console s)).
Proof.
  induction l as [|i l IH]; intros s; simpl.
  - unfold ret. rewrite state_eta. reflexivity.
  - unfold bind at 1. unfold update at 1, bind, get_this, put_array.
    rewrite IH. reflexivity.
Qed.

Lemma foldl_pointwise {A B} (f g : A -> B -> A) (l : list B) :
  (forall a b, f a b = g a b) -> forall a, foldl f a l = foldl g a l.
Proof.
  intros Hfg. induction l as [|b l IH]; intros a; simpl; [reflexivity|].
  rewrite Hfg. apply IH.
Qed.

Lemma forEach_update op (g : nat -> float -> float) (v : nat -> Float64Array -> float) s :
  (forall j acc, op (elem acc j) (v j acc) = g j (elem acc j)) ->
  forEach (fun i => update op i (v i)) s
  = (Normal tt,
     mkState (mkMatrix (rows (this s)) (columns (this s)) (imap g (array (this s))))
             (console s)).
Proof.
  intros Hg. unfold forEach, bind, get_this. rewrite for_each_update.
  rewrite <- in_place_imap. do 3 f_equal.
  apply foldl_pointwise. intros acc j. rewrite Hg. reflexivity.
Qed.

Lemma elementwise_accepts verb op a self :
  same_dimensions self a = true ->
  run (elementwise verb op a) self
  = (Normal This,
     mkState (mkMatrix (rows self) (columns self)
                (imap (fun i x => op x (elem (array a) i)) (array self))) []).
Proof.
  intros Hd. unfold run, elementwise, bind, get_this; simpl. rewrite Hd; simpl.
  rewrite (forEach_update op (fun i x => op x (elem (array a) i))) by reflexivity.
  reflexivity.
Qed.

Lemma elementwise_rejects verb op a self :
  same_dimensions self a = false ->
  run (elementwise verb op a) self
  = (Throw (mkError (dimensions_not_same verb self a)), mkState self []).
Proof.
  intros Hd. unfold run, elementwise, bind, get_this; simpl. rewrite Hd. reflexivity.
Qed.

(** Passing the receiver as the argument behaves as passing a copy of it:
    iteration [i] reads index [i] before anything is stored there. *)
Lemma elementwise_aliased verb op self :
  run (elementwise_self verb op) self = run (elementwise verb op self) self.
Proof.
  assert (Hd : same_dimensions self self = true).
  { unfold same_dimensions. rewrite !Nat.eqb_refl. reflexivity. }
  rewrite (elementwise_accepts _ _ _ _ Hd).
  unfold run, elementwise_self, bind, get_this; simpl. rewrite Hd; simpl.
  rewrite (forEach_update op (fun i x => op x x)) by reflexivity. simpl.
  do 3 f_equal. apply list_eq. intros i. rewrite !list_lookup_imap.
  destruct (array self !! i) as [x|] eqn:Hi; simpl; [|reflexivity].
  rewrite (elem_lookup _ _ _ Hi). reflexivity.
Qed.

Lemma same_dimensions_true self a :
  same_dimensions self a = true <-> rows self = rows a /\ columns self = columns a.
Proof.
  unfold same_dimensions. rewrite andb_true_iff, !Nat.eqb_eq. reflexivity.
Qed.

Lemma same_dimensions_unless self a :
  ~ (rows self <> rows a \/ columns self <> columns a) -> same_dimensions self a = true.
Proof.
  intros Hm. apply same_dimensions_true. split.
  - destruct (decide (rows self = rows a)); [assumption|]. exfalso. auto.
  - destruct (decide (columns self = columns a)); [assumption|]. exfalso. auto.
Qed.

Lemma same_dimensions_false self a :
  same_dimensions self a = false <-> rows self <> rows a \/ columns self <> columns a.
Proof.
  unfold same_dimensions. rewrite andb_false_iff, !Nat.eqb_neq. reflexivity.
Qed.

(* ------------------------------------------------------------------ *)
(** ** Filling a buffer cell by cell

    [multiply] and [transpose] both run two nested counting loops that store
    one value per pair [(i, j)] at a flat index [idx i j] of a local buffer.
    When [idx] stays inside the buffer and never hits a cell twice, every
    cell of the grid ends up holding its own value. *)

Section Grid.
Variables (R C N : nat).
Variable idx : nat -> nat -> nat.
Variable val : nat -> nat -> float.

Hypothesis idx_bound : forall i j, i < R -> j < C -> idx i j < N.
Hypothesis idx_inj : forall i j i' j',
  i < R -> j < C -> i' < R -> j' < C -> idx i j = idx i' j' -> i = i' /\ j = j'.

Local Abbreviation fill := (fill R C idx val).
Local Abbreviation filled_upto := (filled_upto R C N idx val).

Lemma filled_store i j result :
  i < R -> j < C ->
  filled_upto i j result -> filled_upto i (S j) (<[idx i j := val i j]> result).
Proof.
  intros Hi Hj [Hlen Hcells]. split.
  - rewrite length_insert. exact Hlen.
  - intros i' j' Hi' Hj' Hdone.
    destruct (decide (i' = i /\ j' = j)) as [[-> ->]|Hother].
    + apply list_lookup_insert_eq. rewrite Hlen. apply idx_bound; assumption.
    + rewrite list_lookup_insert_ne.
      * apply Hcells; [assumption..|]. lia.
      * intros Heq. apply Hother.
        destruct (idx_inj i j i' j' Hi Hj Hi' Hj' Heq) as [-> ->]. split; reflexivity.
Qed.

Lemma filled_row i result :
  i < R -> filled_upto i 0 result ->
  filled_upto (S i) 0
    (for_loop C (fun j result => <[idx i j := val i j]> result) result).
Proof.
  intros Hi H0.
  assert (Hrow : filled_upto i C
            (for_loop C (fun j result => <[idx i j := val i j]> result) result)).
  { apply (for_loop_invariant (fun j t => filled_upto i j t)); [exact H0|].
    intros j t Hj Ht. apply filled_store; assumption. }
  destruct Hrow as [Hlen Hcells]. split; [exact Hlen|].
  intros i' j' Hi' Hj' Hdone. apply Hcells; [assumption..|]. lia.
Qed.

Lemma fill_filled init : length init = N -> filled_upto R 0 (fill init).
Proof.
  intros Hlen. unfold fill.
  apply (for_loop_invariant (fun i t => filled_upto i 0 t)).
  - split; [exact Hlen|]. intros i' j' _ _ Hdone. lia.
  - intros i t Hi Ht. apply filled_row; assumption.
Qed.

Lemma fill_length init : length init = N -> length (fill init) = N.
Proof. intros Hlen. apply (fill_filled init Hlen). Qed.

Lemma fill_lookup init i j :
  length init = N -> i < R -> j < C -> fill init !! idx i j = Some (val i j).
Proof.
  intros Hlen Hi Hj. apply (fill_filled init Hlen); [assumption..|]. lia.
Qed.
End Grid.

Lemma zeros_length n : length (zeros n) = n.
Proof. apply length_replicate. Qed.

Lemma row_major_bound r c i j : i < r -> j < c -> i * c + j < r * c.
Proof. intros Hi Hj. nia. Qed.

Lemma row_major_inj c i j i' j' :
  j < c -> j' < c -> i * c + j = i' * c + j' -> i = i' /\ j = j'.
Proof.
  intros Hj Hj' Heq.
  assert (i = i') as -> by nia. split; [reflexivity|lia].
Qed.

(** What the loops of [transpose] leave in [result]. *)
Lemma transposed_buffer_spec (m : Matrix) :
  length (transposed_buffer m) = rows m * columns m /\
  forall i j, i < rows m -> j < columns m ->
    transposed_buffer m !! (j * rows m + i)
    = Some (elem (array m) (i * columns m + j)).
Proof.
  pose (idx := fun i j => j * rows m + i).
  pose (val := fun i j => elem (array m) (i * columns m + j)).
  assert (Hb : forall i j, i < rows m -> j < columns m -> idx i j < rows m * columns m).
  { intros i j Hi Hj. unfold idx. rewrite (Nat.mul_comm (rows m)).
    apply row_major_bound; assumption. }
  assert (Hinj : forall i j i' j', i < rows m -> j < columns m ->
            i' < rows m -> j' < columns m -> idx i j = idx i' j' -> i = i' /\ j = j').
  { intros i j i' j' Hi _ Hi' _ Heq. unfold idx in Heq.
    destruct (row_major_inj _ _ _ _ _ Hi Hi' Heq) as [-> ->]. split; reflexivity. }
  change (transposed_buffer m)
    with (fill (rows m) (columns m) idx val (zeros (rows m * columns m))).
  split.
  - apply (fill_length _ _ _ idx val Hb Hinj). apply zeros_length.
  - intros i j Hi Hj.
    apply (fill_lookup _ _ _ idx val Hb Hinj); [apply zeros_length|assumption..].
Qed.

(** What the loops of [multiply] leave in [result] when the inner
    dimensions agree. *)
Lemma product_buffer_spec (self a : Matrix) :
  columns self = rows a ->
  length (product_buffer self a) = rows self * columns a /\
  forall i j, i < rows self -> j < columns a ->
    product_buffer self a !! (i * columns a + j) = Some (dot self a i j).
Proof.
  intros Hinner.
  pose (idx := fun i j => i * columns a + j).
  pose (val := fun i j =>
    for_loop (rows a) (fun k value =>
      (value + elem (array self) (i * rows a + k)
               * elem (array a) (k * columns a + j))%float) 0%float).
  assert (Hb : forall i j, i < rows self -> j < columns a ->
            idx i j < rows self * columns a).
  { intros i j Hi Hj. apply row_major_bound; assumption. }
  assert (Hinj : forall i j i' j', i < rows self -> j < columns a ->
            i' < rows self -> j' < columns a -> idx i j = idx i' j' -> i = i' /\ j = j').
  { intros i j i' j' _ Hj _ Hj' Heq. exact (row_major_inj _ _ _ _ _ Hj Hj' Heq). }
  assert (Hval : forall i j, val i j = dot self a i j).
  { intros i j. unfold val, dot. rewrite Hinner.
    apply (accumulate_fsum
             (fun k => (elem (array self) (i * rows a + k)
                        * elem (array a) (k * columns a + j))%float)). }
  change (product_buffer self a)
    with (fill (rows self) (columns a) idx val (zeros (rows self * columns a))).
  split.
  - apply (fill_length _ _ _ idx val Hb Hinj). apply zeros_length.
  - intros i j Hi Hj. rewrite <- Hval.
    apply (fill_lookup _ _ _ idx val Hb Hinj); [apply zeros_length|assumption..].
Qed.

(* ------------------------------------------------------------------ *)
(** ** Closed forms of the remaining methods *)

Lemma set_sequence_run l s :
  set (FromSequence l) s
  = (Normal This,
     mkState (mkMatrix (rows (this s)) (columns (this s)) l)
             (console s ++ length_warning (array (this s)) l)).
Proof.
  unfold set, bind, ret, get_this, when, warn, put_array, length_warning; simpl.
  destruct (length (array (this s)) =? length l); simpl; [|reflexivity].
  rewrite app_nil_r. reflexivity.
Qed.

Lemma set_matrix_accepts a self :
  same_dimensions self a = true ->
  run (set (FromMatrix a)) self
  = (Normal This, mkState (mkMatrix (rows self) (columns self) (array a)) []).
Proof.
  intros Hd. unfold run, set, bind, get_this; simpl. rewrite Hd. reflexivity.
Qed.

Lemma set_matrix_rejects a self :
  same_dimensions self a = false ->
  run (set (FromMatrix a)) self
  = (Throw (mkError (dimensions_not_same "set" self a)), mkState self []).
Proof.
  intros Hd. unfold run, set, bind, get_this; simpl. rewrite Hd. reflexivity.
Qed.

Lemma clone_run self :
  run clone self
  = (Normal (New (mkMatrix (rows self) (columns self) (array self))),
     mkState self (length_warning (zeros (rows self * columns self)) (array self))).
Proof.
  unfold run, clone, bind, get_this, call_on; simpl.
  rewrite set_sequence_run. reflexivity.
Qed.

Lemma map_run predicate self :
  run (map predicate) self
  = (Normal This,
     mkState (mkMatrix (rows self) (columns self)
                (imap (fun i x => predicate x i (array self)) (array self))) []).
Proof. reflexivity. Qed.

Lemma randomize_run random self :
  run (randomize random) self
  = (Normal This,
     mkState (mkMatrix (rows self) (columns self)
                (imap (fun i _ => random i) (array self))) []).
Proof. reflexivity. Qed.

Lemma multiplyByScalar_run s self :
  run (multiplyByScalar s) self
  = (Normal This,
     mkState (mkMatrix (rows self) (columns self)
                ((fun x => (x * s)%float) <$> array self)) []).
Proof.
  unfold run, multiplyByScalar, bind.
  rewrite (forEach_update PrimFloat.mul (fun _ x => (x * s)%float)) by reflexivity.
  simpl. do 3 f_equal. apply (imap_const (fun x => (x * s)%float)).
Qed.

Lemma multiply_accepts a self :
  columns self = rows a ->
  run (multiply a) self
  = (Normal This,
     mkState (mkMatrix (rows self) (columns a) (product_buffer self a))
             (length_warning (array self) (product_buffer self a))).
Proof.
  intros Hinner. unfold run, multiply, bind, get_this; simpl.
  rewrite Hinner, Nat.eqb_refl; simpl.
  rewrite set_sequence_run. reflexivity.
Qed.

Lemma multiply_rejects a self :
  columns self <> rows a ->
  run (multiply a) self
  = (Throw (mkError (incompatible_dimensions self a)), mkState self []).
Proof.
  intros Hinner. unfold run, multiply, bind, get_this; simpl.
  apply Nat.eqb_neq in Hinner. rewrite Hinner. reflexivity.
Qed.

Lemma transpose_run self :
  run transpose self
  = (Normal This,
     mkState (mkMatrix (columns self) (rows self) (transposed_buffer self))
             (length_warning (array self) (transposed_buffer self))).
Proof.
  unfold run, transpose, bind, get_this; simpl.
  rewrite set_sequence_run. reflexivity.
Qed.

(* ------------------------------------------------------------------ *)
(** ** IEEE 754 facts about multiplying by zero *)

Lemma SFcompare_same_finite s m e :
  SFcompare (S754_finite s m e) (S754_finite s m e) = Some Eq.
Proof.
  simpl. rewrite Z.compare_refl.
  change (Pos.compare_cont Eq m m) with (Pos.compare m m).
  rewrite Pos.compare_refl. destruct s; reflexivity.
Qed.

Lemma is_nan_Prim2SF x :
  is_nan x = match Prim2SF x with S754_nan => true | _ => false end.
Proof.
  unfold is_nan. rewrite FloatAxioms.eqb_spec. unfold SFeqb.
  destruct (Prim2SF x) as [s|s| |s m e].
  - reflexivity.
  - destruct s; reflexivity.
  - reflexivity.
  - rewrite SFcompare_same_finite. reflexivity.
Qed.

Lemma is_infinity_Prim2SF x :
  is_infinity x = match Prim2SF x with S754_infinity _ => true | _ => false end.
Proof.
  unfold is_infinity. rewrite FloatAxioms.eqb_spec, abs_spec. unfold SFeqb.
  change (Prim2SF infinity) with (S754_infinity false).
  destruct (Prim2SF x) as [s|s| |s m e]; reflexivity.
Qed.

Lemma is_zero_Prim2SF x :
  is_zero x = match Prim2SF x with S754_zero _ => true | _ => false end.
Proof.
  unfold is_zero. rewrite FloatAxioms.eqb_spec. unfold SFeqb.
  change (Prim2SF zero) with (S754_zero false).
  destruct (Prim2SF x) as [s|s| |s m e]; try reflexivity; destruct s; reflexivity.
Qed.

Lemma mul_zero_Prim2SF x :
  Prim2SF (x * 0)%float
  = match Prim2SF x with
    | S754_nan | S754_infinity _ => S754_nan
    | S754_zero s | S754_finite s _ _ => S754_zero s
    end.
Proof.
  rewrite mul_spec. unfold SF64mul, SFmul.
  change (Prim2SF 0) with (S754_zero false).
  destruct (Prim2SF x) as [s|s| |s m e]; try reflexivity; destruct s; reflexivity.
Qed.

(** A finite [x] (zero included) times [0] is a zero, [+0] or [-0]. *)
Lemma mul_zero_finite x : is_finite x = true -> is_zero (x * 0) = true.
Proof.
  unfold is_finite.
  rewrite is_zero_Prim2SF, is_nan_Prim2SF, is_infinity_Prim2SF, mul_zero_Prim2SF.
  destruct (Prim2SF x); simpl; congruence.
Qed.

(** [NaN] and the infinities times [0] are [NaN]. *)
Lemma mul_zero_not_finite x : is_finite x = false -> (x * 0)%float = nan.
Proof.
  unfold is_finite. rewrite is_nan_Prim2SF, is_infinity_Prim2SF. intros Hx.
  apply Prim2SF_inj. rewrite mul_zero_Prim2SF.
  destruct (Prim2SF x); simpl in Hx; try discriminate; reflexivity.
Qed.

(* ------------------------------------------------------------------ *)
(** ** The invariant of the data model *)

Lemma new_Matrix_wf r c : wf (new_Matrix r c).
Proof. apply zeros_length. Qed.

Lemma new_Matrix_zero r c i : i < r * c -> array (new_Matrix r c) !! i = Some 0%float.
Proof. intros Hi. apply lookup_replicate_2. exact Hi. Qed.

Lemma transposed_wf self s' r :
  run transpose self = (r, s') -> wf (this s').
Proof.
  rewrite transpose_run. intros [= _ <-]. unfold wf; simpl.
  rewrite (proj1 (transposed_buffer_spec self)). apply Nat.mul_comm.
Qed.

Lemma multiplied_wf a self s' :
  run (multiply a) self = (Normal This, s') -> wf (this s').
Proof.
  destruct (decide (columns self = rows a)) as [Hinner|Hinner].
  - rewrite (multiply_accepts _ _ Hinner). intros [= <-]. unfold wf; simpl.
    apply (product_buffer_spec self a Hinner).
  - rewrite (multiply_rejects _ _ Hinner). discriminate.
Qed.

Lemma elementwise_wf verb op a self s' r :
  wf self -> run (elementwise verb op a) self = (r, s') -> wf (this s').
Proof.
  intros Hwf. destruct (same_dimensions self a) eqn:Hd.
  - rewrite (elementwise_accepts _ _ _ _ Hd). intros [= _ <-].
    unfold wf; simpl. rewrite length_imap. exact Hwf.
  - rewrite (elementwise_rejects _ _ _ _ Hd). intros [= _ <-]. exact Hwf.
Qed.

Lemma multiplyByScalar_wf s self s' r :
  wf self -> run (multiplyByScalar s) self = (r, s') -> wf (this s').
Proof.
  intros Hwf. rewrite multiplyByScalar_run. intros [= _ <-].
  unfold wf; simpl. rewrite length_fmap. exact Hwf.
Qed.

Lemma map_wf predicate self s' r :
  wf self -> run (map predicate) self = (r, s') -> wf (this s').
Proof.
  intros Hwf. rewrite map_run. intros [= _ <-].
  unfold wf; simpl. rewrite length_imap. exact Hwf.
Qed.

Lemma randomize_wf random self s' r :
  wf self -> run (randomize random) self = (r, s') -> wf (this s').
Proof.
  intros Hwf. rewrite randomize_run. intros [= _ <-].
  unfold wf; simpl. rewrite length_imap. exact Hwf.
Qed.

Lemma clone_wf self c :
  wf self -> value_of (run clone self) = Some c -> wf c.
Proof.
  intros Hwf. rewrite clone_run. simpl. intros [= <-]. exact Hwf.
Qed.

Lemma set_matrix_wf a self s' r :
  wf self -> wf a -> run (set (FromMatrix a)) self = (r, s') -> wf (this s').
Proof.
  intros Hwf Ha. destruct (same_dimensions self a) eqn:Hd.
  - rewrite (set_matrix_accepts _ _ Hd). intros [= _ <-]. unfold wf; simpl.
    apply same_dimensions_true in Hd as [-> ->]. exact Ha.
  - rewrite (set_matrix_rejects _ _ Hd). intros [= _ <-]. exact Hwf.
Qed.

Lemma set_sequence_wf l self s' r :
  length l = length (array self) ->
  wf self -> run (set (FromSequence l)) self = (r, s') -> wf (this s').
Proof.
  intros Hlen Hwf. unfold run. rewrite set_sequence_run. intros [= _ <-].
  unfold wf; simpl. rewrite Hlen. exact Hwf.
Qed.

(** A sequence of another length is stored all the same: [set] completes,
    prints its warning, and the buffer no longer fits the shape. *)
Lemma set_sequence_other_length l self :
  wf self -> length l <> length (array self) ->
  exists s', run (set (FromSequence l)) self = (Normal This, s')
    /\ console s' = [different_lengths (length (array self)) (length l)]
    /\ array (this s') = l
    /\ ~ wf (this s').
Proof.
  intros Hwf Hlen. unfold run. rewrite set_sequence_run. eexists. split; [reflexivity|].
  unfold length_warning; simpl.
  assert ((length (array self) =? length l) = false) as -> by (apply Nat.eqb_neq; congruence).
  repeat split. unfold wf; simpl. congruence.
Qed.

(* ------------------------------------------------------------------ *)
(** ** Properties of the specification *)

(** C1. When [self.columns = a.rows], [multiply(a)] completes and returns
    the receiver, whose rows are unchanged, whose columns are [a.columns],
    whose buffer has [rows * a.columns] elements, and whose element at
    [i * a.columns + j] is the sum over [k < old columns] of
    [self[i * old columns + k] * a[k * a.columns + j]], added up from [+0]
    in increasing [k]. *)
Theorem multiply_computes_product (self a : Matrix) :
  columns self = rows a ->
  exists s', run (multiply a) self = (Normal This, s')
    /\ rows (this s') = rows self
    /\ columns (this s') = columns a
    /\ length (array (this s')) = rows self * columns a
    /\ forall i j, i < rows self -> j < columns a ->
         array (this s') !! (i * columns a + j) = Some (dot self a i j).
Proof.
  intros Hinner. rewrite (multiply_accepts _ _ Hinner). eexists. split; [reflexivity|].
  simpl. destruct (product_buffer_spec self a Hinner) as [Hlen Hcells].
  repeat split; assumption.
Qed.

Lemma multiply_computes_product_witness :
  let self := mkMatrix 2 3 [1; 2; 3; 4; 5; 6]%float in
  let a := mkMatrix 3 2 [7; 8; 9; 10; 11; 12]%float in
  columns self = rows a /\
  exists s', run (multiply a) self = (Normal This, s')
    /\ rows (this s') = rows self
    /\ columns (this s') = columns a
    /\ length (array (this s')) = rows self * columns a
    /\ forall i j, i < rows self -> j < columns a ->
         array (this s') !! (i * columns a + j) = Some (dot self a i j).
Proof.
  split; [reflexivity|].
  apply (multiply_computes_product
           (mkMatrix 2 3 [1; 2; 3; 4; 5; 6]%float)
           (mkMatrix 3 2 [7; 8; 9; 10; 11; 12]%float)).
  reflexivity.
Defined.

(** C2. [transpose()] always completes and returns the receiver, with
    [rows] and [columns] swapped and a buffer of [rows * columns] elements
    whose element at [j * rows + i] is the old [self[i * columns + j]]; for a
    matrix whose buffer fits its shape that is the old buffer's length and
    the old element itself. *)
Theorem transpose_moves_elements (m : Matrix) :
  exists s', run transpose m = (Normal This, s')
    /\ rows (this s') = columns m
    /\ columns (this s') = rows m
    /\ length (array (this s')) = rows m * columns m
    /\ (forall i j, i < rows m -> j < columns m ->
          array (this s') !! (j * rows m + i)
          = Some (elem (array m) (i * columns m + j)))
    /\ (wf m ->
        length (array (this s')) = length (array m)
        /\ forall i j, i < rows m -> j < columns m ->
             array (this s') !! (j * rows m + i) = array m !! (i * columns m + j)).
Proof.
  rewrite transpose_run. eexists. split; [reflexivity|]. simpl.
  destruct (transposed_buffer_spec m) as [Hlen Hcells].
  split; [reflexivity|]. split; [reflexivity|]. split; [exact Hlen|].
  split; [exact Hcells|]. intros Hwf. split.
  - rewrite Hlen. symmetry. exact Hwf.
  - intros i j Hi Hj. rewrite (Hcells i j Hi Hj). symmetry.
    apply lookup_elem. rewrite Hwf. apply row_major_bound; assumption.
Qed.

(** C3. On matrices of equal shape, [add], [subtract] and
    [hadamardProduct] complete, return the receiver, and replace each
    element [self[i]] by [self[i] + a[i]], [self[i] - a[i]] and
    [self[i] * a[i]]. *)
Theorem elementwise_updates_in_place (self a : Matrix) :
  rows self = rows a -> columns self = columns a ->
  combines_in_place PrimFloat.add (add a) self a
  /\ combines_in_place PrimFloat.sub (subtract a) self a
  /\ combines_in_place PrimFloat.mul (hadamardProduct a) self a.
Proof.
  intros Hr Hc.
  assert (Hd : same_dimensions self a = true) by (apply same_dimensions_true; auto).
  assert (Hop : forall verb op, combines_in_place op (elementwise verb op a) self a).
  { intros verb op. unfold combines_in_place.
    rewrite (elementwise_accepts _ _ _ _ Hd). eexists. split; [reflexivity|]. simpl.
    repeat split.
    - apply length_imap.
    - intros i x Hx. rewrite list_lookup_imap, Hx. reflexivity. }
  repeat split; apply Hop.
Qed.

Lemma elementwise_updates_in_place_witness :
  let self := mkMatrix 2 2 [1; 2; 3; 4]%float in
  let a := mkMatrix 2 2 [10; 20; 30; 40]%float in
  (rows self = rows a /\ columns self = columns a) /\
  combines_in_place PrimFloat.add (add a) self a
  /\ combines_in_place PrimFloat.sub (subtract a) self a
  /\ combines_in_place PrimFloat.mul (hadamardProduct a) self a.
Proof.
  split; [split; reflexivity|].
  apply (elementwise_updates_in_place
           (mkMatrix 2 2 [1; 2; 3; 4]%float)
           (mkMatrix 2 2 [10; 20; 30; 40]%float)); reflexivity.
Defined.

(** C4. [add], [subtract], [hadamardProduct] and [set] with a matrix throw
    their dimension error exactly when the argument's rows or columns differ
    from the receiver's, and then leave rows, columns and buffer as they
    were. *)
Theorem dimension_mismatch_rejected (self a : Matrix) :
  throws_exactly_when (rows self <> rows a \/ columns self <> columns a)
    (add a) self (dimensions_not_same "add" self a)
  /\ throws_exactly_when (rows self <> rows a \/ columns self <> columns a)
    (subtract a) self (dimensions_not_same "subtract" self a)
  /\ throws_exactly_when (rows self <> rows a \/ columns self <> columns a)
    (hadamardProduct a) self (dimensions_not_same "product" self a)
  /\ throws_exactly_when (rows self <> rows a \/ columns self <> columns a)
    (set (FromMatrix a)) self (dimensions_not_same "set" self a).
Proof.
  assert (Hop : forall verb op,
    throws_exactly_when (rows self <> rows a \/ columns self <> columns a)
      (elementwise verb op a) self (dimensions_not_same verb self a)).
  { intros verb op. split.
    - intros Hm. apply elementwise_rejects, same_dimensions_false, Hm.
    - intros Hm. unfold completes.
      rewrite (elementwise_accepts _ _ _ _ (same_dimensions_unless _ _ Hm)).
      eexists. reflexivity. }
  repeat split; try apply Hop.
  - intros Hm. apply set_matrix_rejects, same_dimensions_false, Hm.
  - intros Hm. unfold completes.
    rewrite (set_matrix_accepts _ _ (same_dimensions_unless _ _ Hm)).
    eexists. reflexivity.
Qed.

(** C5. [multiply(a)] throws its incompatible-dimensions error exactly when
    [self.columns] differs from [a.rows], and then leaves rows, columns and
    buffer as they were. *)
Theorem incompatible_dimensions_rejected (self a : Matrix) :
  throws_exactly_when (columns self <> rows a)
    (multiply a) self (incompatible_dimensions self a).
Proof.
  split.
  - apply multiply_rejects.
  - intros Hm. unfold completes. rewrite multiply_accepts; [eexists; reflexivity|].
    destruct (decide (columns self = rows a)); [assumption|contradiction].
Qed.

(** Transposing the transposed buffer gives the buffer back. *)
Lemma transposed_twice_buffer (M : Matrix) :
  wf M ->
  transposed_buffer (mkMatrix (columns M) (rows M) (transposed_buffer M)) = array M.
Proof.
  intros Hwf.
  set (T := mkMatrix (columns M) (rows M) (transposed_buffer M)).
  destruct (transposed_buffer_spec M) as [HlenT HcellsT].
  destruct (transposed_buffer_spec T) as [Hlen Hcells]. simpl in Hlen, Hcells.
  apply list_eq. intros n.
  destruct (decide (n < rows M * columns M)) as [Hn|Hn].
  - assert (Hc : columns M <> 0) by (intros Hz; rewrite Hz in Hn; lia).
    pose proof (Nat.div_mod_eq n (columns M)) as Hdiv.
    pose proof (Nat.mod_upper_bound n (columns M) Hc) as Hj.
    assert (Hi : n / columns M < rows M).
    { apply Nat.Div0.div_lt_upper_bound. rewrite Nat.mul_comm. exact Hn. }
    assert (Hflat : n = n / columns M * columns M + n mod columns M) by lia.
    rewrite Hflat at 1.
    rewrite (Hcells (n mod columns M) (n / columns M) Hj Hi).
    rewrite (elem_lookup _ _ _ (HcellsT _ _ Hi Hj)).
    rewrite <- Hflat. symmetry. apply lookup_elem. rewrite Hwf. exact Hn.
  - rewrite !lookup_ge_None_2; [reflexivity| |].
    + rewrite Hwf. lia.
    + rewrite Hlen. lia.
Qed.

(** C6. For a matrix whose buffer fits its shape, transposing twice gives
    back the same rows, the same columns and the same buffer. *)
Theorem transpose_involutive (M : Matrix) :
  wf M -> transpose_twice M = Some M.
Proof.
  intros Hwf. unfold transpose_twice. rewrite transpose_run. simpl.
  rewrite transpose_run. simpl. rewrite (transposed_twice_buffer M Hwf).
  destruct M; reflexivity.
Qed.

Lemma transpose_involutive_witness :
  let M := mkMatrix 2 3 [1; 2; 3; 4; 5; 6]%float in
  wf M /\ transpose_twice M = Some M.
Proof.
  split; [reflexivity|].
  apply (transpose_involutive (mkMatrix 2 3 [1; 2; 3; 4; 5; 6]%float)).
  reflexivity.
Defined.

(** C7, as the claim states it, fails: with [M = [1]] and [A = [2^53]] the
    sum [1 + 2^53] rounds to [2^53], so [M.clone().add(A).subtract(A)] holds
    [0] where [M] holds [1]. *)
Lemma add_then_subtract_loses_element :
  let M := mkMatrix 1 1 [1%float] in
  let A := mkMatrix 1 1 [0x1p+53%float] in
  wf M /\ wf A /\ same_dimensions M A = true
  /\ clone_add_subtract M A = Some (mkMatrix 1 1 [0%float])
  /\ array M !! 0 = Some 1%float
  /\ (0 =? 1)%float = false
  /\ clone_add_subtract M A <> Some M.
Proof.
  repeat split. intros H.
  apply (f_equal (fun r => match r with
                           | Some (mkMatrix _ _ [x]) => is_zero x
                           | _ => false
                           end)) in H.
  vm_compute in H. discriminate.
Qed.

(** C7, amended. For [A] of the shape of [M], [M.clone().add(A).subtract(A)]
    is a matrix of [M]'s shape whose element at [i] is
    [(M[i] + A[i]) - A[i]], each operation rounded as a double; it is [M[i]]
    again at the indices where that expression evaluates to [M[i]]. *)
Theorem clone_add_subtract_elements (M A : Matrix) :
  rows M = rows A -> columns M = columns A ->
  exists R, clone_add_subtract M A = Some R
    /\ rows R = rows M
    /\ columns R = columns M
    /\ length (array R) = length (array M)
    /\ (forall i x, array M !! i = Some x ->
          array R !! i = Some (x + elem (array A) i - elem (array A) i)%float)
    /\ ((forall i x, array M !! i = Some x ->
           (x + elem (array A) i - elem (array A) i)%float = x) ->
        R = M).
Proof.
  intros Hr Hc. unfold clone_add_subtract. rewrite clone_run. simpl.
  set (C := mkMatrix (rows M) (columns M) (array M)).
  assert (Hd : same_dimensions C A = true) by (apply same_dimensions_true; auto).
  unfold add. rewrite (elementwise_accepts _ _ _ _ Hd). simpl.
  set (C' := mkMatrix _ _ _).
  assert (Hd' : same_dimensions C' A = true) by (apply same_dimensions_true; auto).
  unfold subtract. rewrite (elementwise_accepts _ _ _ _ Hd'). simpl.
  eexists. split; [reflexivity|]. simpl.
  assert (Hcells : forall i x, array M !! i = Some x ->
    imap (fun i x => (x - elem (array A) i)%float)
      (imap (fun i x => (x + elem (array A) i)%float) (array M)) !! i
    = Some (x + elem (array A) i - elem (array A) i)%float).
  { intros i x Hx. rewrite !list_lookup_imap, Hx. reflexivity. }
  split; [reflexivity|]. split; [reflexivity|].
  split; [rewrite !length_imap; reflexivity|].
  split; [exact Hcells|].
  intros Hexact. destruct M as [r c arr]; simpl in *. f_equal.
  apply list_eq. intros i. destruct (arr !! i) as [x|] eqn:Hx.
  - rewrite (Hcells i x Hx), (Hexact i x Hx). reflexivity.
  - apply lookup_ge_None. rewrite !length_imap. apply lookup_ge_None. exact Hx.
Qed.

Lemma clone_add_subtract_elements_witness :
  let M := mkMatrix 1 2 [1; 2]%float in
  let A := mkMatrix 1 2 [3; 4]%float in
  (rows M = rows A /\ columns M = columns A) /\
  exists R, clone_add_subtract M A = Some R
    /\ rows R = rows M
    /\ columns R = columns M
    /\ length (array R) = length (array M)
    /\ (forall i x, array M !! i = Some x ->
          array R !! i = Some (x + elem (array A) i - elem (array A) i)%float)
    /\ ((forall i x, array M !! i = Some x ->
           (x + elem (array A) i - elem (array A) i)%float = x) ->
        R = M).
Proof.
  split; [split; reflexivity|].
  apply (clone_add_subtract_elements
           (mkMatrix 1 2 [1; 2]%float) (mkMatrix 1 2 [3; 4]%float)); reflexivity.
Defined.

(** C8 at the input [new Matrix(2, 2).set([1, 2, 3])]: [set] completes,
    prints its warning and keeps the three elements, so the buffer no longer
    has [rows * columns] elements. *)
Theorem set_sequence_breaks_invariant :
  let self := new_Matrix 2 2 in
  let out := run (set (FromSequence [1; 2; 3]%float)) self in
  wf self
  /\ fst out = Normal This
  /\ this (snd out) = mkMatrix 2 2 [1; 2; 3]%float
  /\ console (snd out)
     = ["Cannot set. Arrays have different lengths: 4 / 3. Probably their dimensions aren't the same."%string]
  /\ length (array (this (snd out))) = 3
  /\ rows (this (snd out)) * columns (this (snd out)) = 4
  /\ ~ wf (this (snd out)).
Proof.
  repeat split. unfold wf. simpl. discriminate.
Qed.

(** C9. [multiplyByScalar(0)] completes, keeps the shape and replaces each
    element [x] by [x * 0]: a zero ([+0] or [-0]) when [x] is finite, [NaN]
    when [x] is [NaN] or an infinity. *)
Theorem multiplyByScalar_zero (self : Matrix) :
  exists s', run (multiplyByScalar 0) self = (Normal This, s')
    /\ rows (this s') = rows self
    /\ columns (this s') = columns self
    /\ length (array (this s')) = length (array self)
    /\ forall i x, array self !! i = Some x ->
         array (this s') !! i = Some (x * 0)%float
         /\ (is_finite x = true -> is_zero (x * 0) = true)
         /\ (is_nan x = true \/ is_infinity x = true -> (x * 0)%float = nan).
Proof.
  rewrite multiplyByScalar_run. eexists. split; [reflexivity|]. simpl.
  split; [reflexivity|]. split; [reflexivity|]. split; [apply length_fmap|].
  intros i x Hx. split; [|split].
  - rewrite list_lookup_fmap, Hx. reflexivity.
  - apply mul_zero_finite.
  - intros Hspecial. apply mul_zero_not_finite. unfold is_finite.
    destruct Hspecial as [-> | ->]; [reflexivity|].
    rewrite orb_true_r. reflexivity.
Qed.

(** C10. [map], [randomize], [multiplyByScalar], [add], [subtract] and
    [hadamardProduct] leave [rows] and [columns] as they were. *)
Theorem in_place_methods_keep_shape (self a : Matrix)
    (predicate : float -> nat -> Float64Array -> float)
    (random : nat -> float) (s : float) :
  keeps_shape (map predicate) self
  /\ keeps_shape (randomize random) self
  /\ keeps_shape (multiplyByScalar s) self
  /\ keeps_shape (add a) self
  /\ keeps_shape (subtract a) self
  /\ keeps_shape (hadamardProduct a) self.
Proof.
  assert (Hop : forall verb op, keeps_shape (elementwise verb op a) self).
  { intros verb op. unfold keeps_shape. destruct (same_dimensions self a) eqn:Hd.
    - rewrite (elementwise_accepts _ _ _ _ Hd). simpl.
      rewrite length_imap. repeat split.
    - rewrite (elementwise_rejects _ _ _ _ Hd). repeat split. }
  split; [|split; [|split; [|repeat split; apply Hop]]].
  - unfold keeps_shape. rewrite map_run. simpl. rewrite length_imap. repeat split.
  - unfold keeps_shape. rewrite randomize_run. simpl. rewrite length_imap. repeat split.
  - unfold keeps_shape. rewrite multiplyByScalar_run. simpl.
    rewrite length_fmap. repeat split.
Qed.

(* ------------------------------------------------------------------ *)
(** ** The worked examples of the specification *)

Example multiply_2x3_3x2 :
  value_of (run (multiply (mkMatrix 3 2 [7; 8; 9; 10; 11; 12]%float))
                (mkMatrix 2 3 [1; 2; 3; 4; 5; 6]%float))
  = Some (mkMatrix 2 2 [58; 64; 139; 154]%float).
Proof. reflexivity. Qed.

Example multiply_2x3_2x2_throws :
  fst (run (multiply (mkMatrix 2 2 [1; 2; 3; 4]%float))
           (mkMatrix 2 3 [1; 2; 3; 4; 5; 6]%float))
  = Throw (mkError
      "Cannot multiply. Matrices have incompatible dimensions: 2 x 3 / 2 x 2").
Proof. reflexivity. Qed.

Example transpose_2x3 :
  value_of (run transpose (mkMatrix 2 3 [1; 2; 3; 4; 5; 6]%float))
  = Some (mkMatrix 3 2 [1; 4; 2; 5; 3; 6]%float).
Proof. reflexivity. Qed.

Example scalar_zero_on_special_values :
  value_of (run (multiplyByScalar 0)
                (mkMatrix 1 4 [infinity; nan; (-1)%float; 5%float]))
  = Some (mkMatrix 1 4 [nan; nan; (-0)%float; 0%float]).
Proof. reflexivity. Qed.

Example transpose_of_stale_shape :
  value_of (run transpose (mkMatrix 2 2 [1; 2; 3]%float))
  = Some (mkMatrix 2 2 [1; 3; 2; nan]%float).
Proof. reflexivity. Qed.

(* ------------------------------------------------------------------ *)
(** ** IEEE 754 facts about sums, differences and products *)

Lemma float_mul_comm (x y : float) : (x * y)%float = (y * x)%float.
Proof.
  apply Prim2SF_inj. rewrite !mul_spec. unfold SF64mul, SFmul.
  destruct (Prim2SF x) as [sx|sx| |sx mx ex], (Prim2SF y) as [sy|sy| |sy my ey];
    try reflexivity; try (rewrite (xorb_comm sx sy); reflexivity).
  rewrite (xorb_comm sx sy), (Pos.mul_comm mx my), (Z.add_comm ex ey). reflexivity.
Qed.

Lemma float_add_comm (x y : float) : (x + y)%float = (y + x)%float.
Proof.
  apply Prim2SF_inj. rewrite !add_spec. unfold SF64add, SFadd.
  destruct (Prim2SF x) as [sx|sx| |sx mx ex], (Prim2SF y) as [sy|sy| |sy my ey];
    try reflexivity; try (destruct sx, sy; reflexivity).
  cbv zeta. rewrite (Z.min_comm ey ex).
  rewrite (Z.add_comm (cond_Zopp sy _)). reflexivity.
Qed.

(** Subtracting [+0] changes nothing, the sign of a zero included. *)
Lemma float_sub_zero (x : float) : (x - 0)%float = x.
Proof.
  apply Prim2SF_inj. rewrite sub_spec. unfold SF64sub, SFsub.
  change (Prim2SF 0) with (S754_zero false).
  destruct (Prim2SF x) as [sx|sx| |sx mx ex]; try reflexivity. destruct sx; reflexivity.
Qed.

(** Adding [+0] changes nothing but [-0], which becomes [+0]. *)
Lemma float_add_zero (x : float) : x <> neg_zero -> (x + 0)%float = x.
Proof.
  intros Hx. apply Prim2SF_inj. rewrite add_spec. unfold SF64add, SFadd.
  change (Prim2SF 0) with (S754_zero false).
  destruct (Prim2SF x) as [sx|sx| |sx mx ex] eqn:E; try reflexivity.
  destruct sx; [|reflexivity]. exfalso. apply Hx. apply Prim2SF_inj. rewrite E. reflexivity.
Qed.

Lemma float_sub_diag_Prim2SF (x : float) :
  Prim2SF (x - x)%float
  = match Prim2SF x with
    | S754_nan | S754_infinity _ => S754_nan
    | S754_zero _ | S754_finite _ _ _ => S754_zero false
    end.
Proof.
  rewrite sub_spec. unfold SF64sub, SFsub.
  destruct (Prim2SF x) as [sx|sx| |sx mx ex];
    try reflexivity; try (destruct sx; reflexivity).
  cbv zeta. rewrite Z.sub_diag. reflexivity.
Qed.

Lemma float_sub_diag_finite (x : float) : is_finite x = true -> (x - x)%float = 0%float.
Proof.
  unfold is_finite. rewrite is_nan_Prim2SF, is_infinity_Prim2SF. intros Hx.
  apply Prim2SF_inj. rewrite float_sub_diag_Prim2SF.
  destruct (Prim2SF x); simpl in Hx; try discriminate; reflexivity.
Qed.

Lemma float_sub_diag_not_finite (x : float) : is_finite x = false -> (x - x)%float = nan.
Proof.
  unfold is_finite. rewrite is_nan_Prim2SF, is_infinity_Prim2SF. intros Hx.
  apply Prim2SF_inj. rewrite float_sub_diag_Prim2SF.
  destruct (Prim2SF x); simpl in Hx; try discriminate; reflexivity.
Qed.

(* ------------------------------------------------------------------ *)
(** ** Buffers cell by cell *)

(** Two row-major buffers of an [r * c] grid are equal when they agree on
    every cell. *)
Lemma grid_ext r c (l1 l2 : Float64Array) :
  length l1 = r * c -> length l2 = r * c ->
  (forall i j, i < r -> j < c -> l1 !! (i * c + j) = l2 !! (i * c + j)) ->
  l1 = l2.
Proof.
  intros H1 H2 Hcells. apply list_eq. intros n.
  destruct (decide (n < r * c)) as [Hn|Hn].
  - assert (Hc : c <> 0) by (intros ->; lia).
    pose proof (Nat.div_mod_eq n c) as Hdiv.
    pose proof (Nat.mod_upper_bound n c Hc) as Hj.
    assert (Hi : n / c < r).
    { apply Nat.Div0.div_lt_upper_bound. rewrite Nat.mul_comm. exact Hn. }
    assert (Hflat : n = n / c * c + n mod c) by lia.
    rewrite Hflat. apply Hcells; assumption.
  - rewrite !lookup_ge_None_2; [reflexivity|lia|lia].
Qed.

Lemma fsum_ext n (f g : nat -> float) :
  (forall k, k < n -> f k = g k) -> fsum n f = fsum n g.
Proof.
  induction n as [|n IH]; intros Hfg; simpl; [reflexivity|].
  rewrite IH, Hfg by auto with lia. reflexivity.
Qed.

Lemma elem_zeros n i : i < n -> elem (zeros n) i = 0%float.
Proof. intros Hi. apply elem_lookup, lookup_replicate_2, Hi. Qed.

Lemma matrix_eta (m : Matrix) : mkMatrix (rows m) (columns m) (array m) = m.
Proof. destruct m. reflexivity. Qed.

Lemma length_warning_nil (old new : Float64Array) :
  length_warning old new = [] <-> length old = length new.
Proof.
  unfold length_warning. destruct (Nat.eqb_spec (length old) (length new)) as [He|Hne].
  - split; auto.
  - split; [discriminate|contradiction].
Qed.

Lemma length_warning_other (old new : Float64Array) :
  length old <> length new ->
  length_warning old new = [different_lengths (length old) (length new)].
Proof.
  intros Hne. unfold length_warning.
  destruct (Nat.eqb_spec (length old) (length new)); [contradiction|reflexivity].
Qed.

(* ------------------------------------------------------------------ *)
(** ** Further properties of the class *)

(** X1. [set] with a sequence never throws: it returns the receiver with
    rows and columns untouched and the sequence as its buffer, and it prints
    nothing exactly when the sequence has the old buffer's length, one
    warning naming both lengths otherwise. *)
Theorem set_sequence_always_stores (self : Matrix) (l : Float64Array) :
  exists s', run (set (FromSequence l)) self = (Normal This, s')
    /\ rows (this s') = rows self
    /\ columns (this s') = columns self
    /\ array (this s') = l
    /\ (console s' = [] <-> length (array self) = length l)
    /\ (length (array self) <> length l ->
        console s' = [different_lengths (length (array self)) (length l)]).
Proof.
  unfold run. rewrite set_sequence_run. eexists. split; [reflexivity|]. simpl.
  split; [reflexivity|]. split; [reflexivity|]. split; [reflexivity|].
  split; [apply length_warning_nil|apply length_warning_other].
Qed.

(** X2. [clone] returns a new object with the receiver's rows, columns and
    buffer and leaves the receiver as it was; it prints nothing exactly when
    the receiver's buffer has [rows * columns] elements. *)
Theorem clone_copies (self : Matrix) :
  exists s', run clone self = (Normal (New self), s')
    /\ this s' = self
    /\ (console s' = [] <-> wf self).
Proof.
  rewrite clone_run, matrix_eta. eexists. split; [reflexivity|]. simpl.
  split; [reflexivity|].
  rewrite length_warning_nil, zeros_length. unfold wf. split; congruence.
Qed.

(** X3. Starting from a receiver and an argument whose buffers have
    [rows * columns] elements, every method leaves the receiver with that
    property, whether it completes or throws; for [set] with a sequence this
    needs the sequence to have the buffer's length. *)
Theorem invariant_preserved (self a : Matrix) (l : Float64Array)
    (predicate : float -> nat -> Float64Array -> float)
    (random : nat -> float) (s : float) :
  wf self -> wf a -> length l = length (array self) ->
  keeps_invariant (set (FromMatrix a)) self
  /\ keeps_invariant (set (FromSequence l)) self
  /\ keeps_invariant clone self
  /\ keeps_invariant (map predicate) self
  /\ keeps_invariant (randomize random) self
  /\ keeps_invariant (add a) self
  /\ keeps_invariant (subtract a) self
  /\ keeps_invariant (hadamardProduct a) self
  /\ keeps_invariant (multiplyByScalar s) self
  /\ keeps_invariant (multiply a) self
  /\ keeps_invariant transpose self.
Proof.
  intros Hwf Ha Hl. unfold keeps_invariant.
  assert (Hrun : forall (m : Method Ref),
            run m self = (fst (run m self), snd (run m self))).
  { intros m. destruct (run m self). reflexivity. }
  repeat split.
  - eapply set_matrix_wf; [exact Hwf|exact Ha|apply Hrun].
  - eapply set_sequence_wf; [exact Hl|exact Hwf|apply Hrun].
  - rewrite clone_run. exact Hwf.
  - eapply map_wf; [exact Hwf|apply Hrun].
  - eapply randomize_wf; [exact Hwf|apply Hrun].
  - eapply elementwise_wf; [exact Hwf|apply Hrun].
  - eapply elementwise_wf; [exact Hwf|apply Hrun].
  - eapply elementwise_wf; [exact Hwf|apply Hrun].
  - eapply multiplyByScalar_wf; [exact Hwf|apply Hrun].
  - destruct (decide (columns self = rows a)) as [Hinner|Hinner].
    + rewrite (multiply_accepts _ _ Hinner).
      apply (multiplied_wf a self _ (multiply_accepts _ _ Hinner)).
    + rewrite (multiply_rejects _ _ Hinner). exact Hwf.
  - eapply transposed_wf. apply Hrun.
Qed.

Lemma invariant_preserved_witness :
  let self := mkMatrix 2 2 [1; 2; 3; 4]%float in
  let a := mkMatrix 2 2 [5; 6; 7; 8]%float in
  let l := [9; 10; 11; 12]%float in
  (wf self /\ wf a /\ length l = length (array self)) /\
  keeps_invariant (set (FromMatrix a)) self
  /\ keeps_invariant (set (FromSequence l)) self
  /\ keeps_invariant clone self
  /\ keeps_invariant (map (fun x _ _ => x)) self
  /\ keeps_invariant (randomize (fun _ => 0%float)) self
  /\ keeps_invariant (add a) self
  /\ keeps_invariant (subtract a) self
  /\ keeps_invariant (hadamardProduct a) self
  /\ keeps_invariant (multiplyByScalar 2) self
  /\ keeps_invariant (multiply a) self
  /\ keeps_invariant transpose self.
Proof.
  split; [repeat split|].
  apply (invariant_preserved
           (mkMatrix 2 2 [1; 2; 3; 4]%float) (mkMatrix 2 2 [5; 6; 7; 8]%float)
           [9; 10; 11; 12]%float); reflexivity.
Defined.

(** X4. [transpose], and [multiply] when it accepts its argument, leave the
    receiver with a buffer of [rows * columns] elements whatever the buffer's
    length was before the call. *)
Theorem shape_changes_restore_invariant (self a : Matrix) :
  keeps_invariant transpose self
  /\ (columns self = rows a -> keeps_invariant (multiply a) self).
Proof.
  unfold keeps_invariant. split.
  - apply (transposed_wf self _ (fst (run transpose self))).
    destruct (run transpose self); reflexivity.
  - intros Hinner. rewrite (multiply_accepts _ _ Hinner).
    apply (multiplied_wf a self _ (multiply_accepts _ _ Hinner)).
Qed.

(** X5. A successful [multiply] on a receiver whose buffer has
    [rows * columns] elements prints [set]'s length warning exactly when the
    product has another number of elements, that is when the receiver has at
    least one row and [a.columns] differs from its columns. *)
Theorem multiply_warns_on_resize (self a : Matrix) :
  wf self -> columns self = rows a ->
  (printed (multiply a) self = [] <-> rows self = 0 \/ columns a = columns self)
  /\ (rows self <> 0 -> columns a <> columns self ->
      printed (multiply a) self
      = [different_lengths (rows self * columns self) (rows self * columns a)]).
Proof.
  intros Hwf Hinner. unfold printed. rewrite (multiply_accepts _ _ Hinner). simpl.
  destruct (product_buffer_spec self a Hinner) as [Hlen _]. split.
  - rewrite length_warning_nil, Hlen, Hwf. nia.
  - intros Hr Hc. rewrite length_warning_other; rewrite Hlen, Hwf; [reflexivity|nia].
Qed.

Lemma multiply_warns_on_resize_witness :
  let self := mkMatrix 2 3 [1; 2; 3; 4; 5; 6]%float in
  let a := mkMatrix 3 2 [7; 8; 9; 10; 11; 12]%float in
  (wf self /\ columns self = rows a) /\
  (printed (multiply a) self = [] <-> rows self = 0 \/ columns a = columns self)
  /\ (rows self <> 0 -> columns a <> columns self ->
      printed (multiply a) self
      = [different_lengths (rows self * columns self) (rows self * columns a)]).
Proof.
  split; [split; reflexivity|].
  apply (multiply_warns_on_resize
           (mkMatrix 2 3 [1; 2; 3; 4; 5; 6]%float)
           (mkMatrix 3 2 [7; 8; 9; 10; 11; 12]%float)); reflexivity.
Defined.

(** X6. [transpose] prints nothing exactly when the receiver's buffer has
    [rows * columns] elements; [add], [subtract], [hadamardProduct],
    [multiplyByScalar], [map], [randomize] and [set] with a matrix never
    print, whether they complete or throw. *)
Theorem console_stays_quiet (self a : Matrix)
    (predicate : float -> nat -> Float64Array -> float)
    (random : nat -> float) (s : float) :
  (printed transpose self = [] <-> wf self)
  /\ printed (add a) self = []
  /\ printed (subtract a) self = []
  /\ printed (hadamardProduct a) self = []
  /\ printed (multiplyByScalar s) self = []
  /\ printed (map predicate) self = []
  /\ printed (randomize random) self = []
  /\ printed (set (FromMatrix a)) self = [].
Proof.
  assert (Hop : forall verb op, printed (elementwise verb op a) self = []).
  { intros verb op. unfold printed. destruct (same_dimensions self a) eqn:Hd.
    - rewrite (elementwise_accepts _ _ _ _ Hd). reflexivity.
    - rewrite (elementwise_rejects _ _ _ _ Hd). reflexivity. }
  split; [|repeat split; try apply Hop].
  - unfold printed. rewrite transpose_run. simpl.
    rewrite length_warning_nil, (proj1 (transposed_buffer_spec self)).
    unfold wf. reflexivity.
  - unfold printed. rewrite multiplyByScalar_run. reflexivity.
  - unfold printed. destruct (same_dimensions self a) eqn:Hd.
    + rewrite (set_matrix_accepts _ _ Hd). reflexivity.
    + rewrite (set_matrix_rejects _ _ Hd). reflexivity.
Qed.

Lemma imap_combine_comm (op : float -> float -> float) (l1 l2 : Float64Array) :
  (forall x y, op x y = op y x) -> length l1 = length l2 ->
  imap (fun i x => op x (elem l2 i)) l1 = imap (fun i y => op y (elem l1 i)) l2.
Proof.
  intros Hcomm Hlen. apply list_eq. intros i. rewrite !list_lookup_imap.
  destruct (l1 !! i) as [x|] eqn:H1.
  - destruct (lookup_lt_is_Some_2 l2 i) as [y H2].
    { rewrite <- Hlen. eapply lookup_lt_Some. exact H1. }
    rewrite H2. simpl.
    rewrite (elem_lookup _ _ _ H1), (elem_lookup _ _ _ H2), Hcomm. reflexivity.
  - rewrite (lookup_ge_None_2 l2 i); [reflexivity|].
    rewrite <- Hlen. apply lookup_ge_None. exact H1.
Qed.

Lemma same_shape_same_length (A B : Matrix) :
  wf A -> wf B -> rows A = rows B -> columns A = columns B ->
  length (array A) = length (array B).
Proof. unfold wf. intros -> -> -> ->. reflexivity. Qed.

(** X7. Passing the receiver itself to [add], [subtract] or
    [hadamardProduct] behaves as passing a separate matrix with the same
    contents: the call completes and each element [x] becomes [x + x],
    [x - x] and [x * x]. *)
Theorem receiver_as_argument (self : Matrix) :
  run (elementwise_self "add" PrimFloat.add) self = run (add self) self
  /\ run (elementwise_self "subtract" PrimFloat.sub) self = run (subtract self) self
  /\ run (elementwise_self "product" PrimFloat.mul) self
     = run (hadamardProduct self) self
  /\ forall verb op, exists s',
       run (elementwise_self verb op) self = (Normal This, s')
       /\ rows (this s') = rows self
       /\ columns (this s') = columns self
       /\ forall i x, array self !! i = Some x ->
            array (this s') !! i = Some (op x x).
Proof.
  split; [apply elementwise_aliased|]. split; [apply elementwise_aliased|].
  split; [apply elementwise_aliased|].
  intros verb op. rewrite elementwise_aliased.
  assert (Hd : same_dimensions self self = true).
  { apply same_dimensions_true. split; reflexivity. }
  rewrite (elementwise_accepts _ _ _ _ Hd). eexists. split; [reflexivity|]. simpl.
  split; [reflexivity|]. split; [reflexivity|].
  intros i x Hx. rewrite list_lookup_imap, Hx. simpl.
  rewrite (elem_lookup _ _ _ Hx). reflexivity.
Qed.

(** X8. [m.subtract(m)] turns every finite element into [+0] and every
    [NaN] or infinite element into [NaN]. *)
Theorem subtract_self_cancels (self : Matrix) :
  exists s', run (elementwise_self "subtract" PrimFloat.sub) self = (Normal This, s')
    /\ length (array (this s')) = length (array self)
    /\ forall i x, array self !! i = Some x ->
         (is_finite x = true -> array (this s') !! i = Some 0%float)
         /\ (is_finite x = false -> array (this s') !! i = Some nan).
Proof.
  rewrite elementwise_aliased.
  assert (Hd : same_dimensions self self = true).
  { apply same_dimensions_true. split; reflexivity. }
  rewrite (elementwise_accepts _ _ _ _ Hd). eexists. split; [reflexivity|]. simpl.
  split; [apply length_imap|].
  intros i x Hx. rewrite list_lookup_imap, Hx. simpl.
  rewrite (elem_lookup _ _ _ Hx). split; intros Hfin.
  - rewrite (float_sub_diag_finite x Hfin). reflexivity.
  - rewrite (float_sub_diag_not_finite x Hfin). reflexivity.
Qed.

(** X9. [add] is commutative: for two matrices of the same shape whose
    buffers have [rows * columns] elements, [A.add(B)] and [B.add(A)] leave
    the same buffer in their receivers. *)
Theorem add_commutes (A B : Matrix) :
  wf A -> wf B -> rows A = rows B -> columns A = columns B ->
  call (add B) A = call (add A) B.
Proof.
  intros HA HB Hr Hc. unfold call, add.
  rewrite !elementwise_accepts by (apply same_dimensions_true; auto).
  simpl. rewrite Hr, Hc. do 2 f_equal.
  apply (imap_combine_comm PrimFloat.add); [apply float_add_comm|].
  apply same_shape_same_length; assumption.
Qed.

Lemma add_commutes_witness :
  let A := mkMatrix 1 2 [1; 2]%float in
  let B := mkMatrix 1 2 [infinity; (-0)%float] in
  (wf A /\ wf B /\ rows A = rows B /\ columns A = columns B) /\
  call (add B) A = call (add A) B.
Proof.
  split; [repeat split|].
  apply (add_commutes (mkMatrix 1 2 [1; 2]%float)
                      (mkMatrix 1 2 [infinity; (-0)%float])); reflexivity.
Defined.

(** X10. [hadamardProduct] is commutative: for two matrices of the same
    shape whose buffers have [rows * columns] elements,
    [A.hadamardProduct(B)] and [B.hadamardProduct(A)] leave the same buffer
    in their receivers. *)
Theorem hadamardProduct_commutes (A B : Matrix) :
  wf A -> wf B -> rows A = rows B -> columns A = columns B ->
  call (hadamardProduct B) A = call (hadamardProduct A) B.
Proof.
  intros HA HB Hr Hc. unfold call, hadamardProduct.
  rewrite !elementwise_accepts by (apply same_dimensions_true; auto).
  simpl. rewrite Hr, Hc. do 2 f_equal.
  apply (imap_combine_comm PrimFloat.mul); [apply float_mul_comm|].
  apply same_shape_same_length; assumption.
Qed.

Lemma hadamardProduct_commutes_witness :
  let A := mkMatrix 2 1 [3; 0]%float in
  let B := mkMatrix 2 1 [5; infinity]%float in
  (wf A /\ wf B /\ rows A = rows B /\ columns A = columns B) /\
  call (hadamardProduct B) A = call (hadamardProduct A) B.
Proof.
  split; [repeat split|].
  apply (hadamardProduct_commutes (mkMatrix 2 1 [3; 0]%float)
                                  (mkMatrix 2 1 [5; infinity]%float)); reflexivity.
Defined.

Lemma call_transpose (m : Matrix) :
  call transpose m = Some (mkMatrix (columns m) (rows m) (transposed_buffer m)).
Proof. unfold call. rewrite transpose_run. reflexivity. Qed.

Lemma call_multiply (a self : Matrix) :
  columns self = rows a ->
  call (multiply a) self
  = Some (mkMatrix (rows self) (columns a) (product_buffer self a)).
Proof. intros Hinner. unfold call. rewrite (multiply_accepts _ _ Hinner). reflexivity. Qed.

Lemma call_multiplyByScalar (s : float) (m : Matrix) :
  call (multiplyByScalar s) m
  = Some (mkMatrix (rows m) (columns m) ((fun x => (x * s)%float) <$> array m)).
Proof. unfold call. rewrite multiplyByScalar_run. reflexivity. Qed.

Lemma elem_transposed (m : Matrix) i j :
  i < rows m -> j < columns m ->
  elem (transposed_buffer m) (j * rows m + i) = elem (array m) (i * columns m + j).
Proof.
  intros Hi Hj. apply elem_lookup. apply (transposed_buffer_spec m); assumption.
Qed.

(** Transposing a product against multiplying the transposes the other way
    round: the sums run over the same [k] in the same order, with the two
    factors of each term exchanged. *)
Lemma product_transposed (A B : Matrix) :
  columns A = rows B ->
  transpose_of_product A B = product_of_transposes A B
  /\ exists buffer,
       transpose_of_product A B = Some (mkMatrix (columns B) (rows A) buffer).
Proof.
  intros Hinner. unfold transpose_of_product, product_of_transposes.
  rewrite (call_multiply _ _ Hinner), !call_transpose. simpl.
  rewrite call_transpose, call_multiply by (simpl; congruence). simpl.
  set (P := mkMatrix (rows A) (columns B) (product_buffer A B)).
  set (At := mkMatrix (columns A) (rows A) (transposed_buffer A)).
  set (Bt := mkMatrix (columns B) (rows B) (transposed_buffer B)).
  split; [|eexists; reflexivity]. do 2 f_equal.
  destruct (transposed_buffer_spec P) as [HlenP HcellsP].
  destruct (product_buffer_spec Bt At) as [Hlen Hcells]; [simpl; congruence|].
  destruct (product_buffer_spec A B Hinner) as [_ HcellsAB].
  simpl in HlenP, HcellsP, Hlen, Hcells.
  apply (grid_ext (columns B) (rows A)); [lia|lia|].
  intros j i Hj Hi.
  rewrite (HcellsP i j Hi Hj), (Hcells j i Hj Hi). f_equal.
  rewrite (elem_lookup _ _ _ (HcellsAB i j Hi Hj)).
  unfold dot. simpl. rewrite <- Hinner. apply fsum_ext. intros k Hk.
  rewrite float_mul_comm. f_equal; symmetry.
  - rewrite Hinner. apply elem_transposed; lia.
  - apply elem_transposed; assumption.
Qed.

(** X11. The transpose of a product is the product of the transposes in
    reverse order, bit for bit: when [A.columns = B.rows],
    [A.multiply(B).transpose()] and [B.transpose().multiply(A.transpose())]
    give the same rows, columns and buffer. *)
Theorem transpose_of_product_reverses (A B : Matrix) :
  columns A = rows B ->
  transpose_of_product A B = product_of_transposes A B
  /\ exists buffer,
       transpose_of_product A B = Some (mkMatrix (columns B) (rows A) buffer).
Proof. exact (product_transposed A B). Qed.

Lemma transpose_of_product_reverses_witness :
  let A := mkMatrix 2 3 [1; 2; 3; 4; 5; 6]%float in
  let B := mkMatrix 3 2 [7; 8; 9; 10; 11; 12]%float in
  columns A = rows B /\
  (transpose_of_product A B = product_of_transposes A B
   /\ exists buffer,
        transpose_of_product A B = Some (mkMatrix (columns B) (rows A) buffer)).
Proof.
  split; [reflexivity|].
  apply (transpose_of_product_reverses
           (mkMatrix 2 3 [1; 2; 3; 4; 5; 6]%float)
           (mkMatrix 3 2 [7; 8; 9; 10; 11; 12]%float)). reflexivity.
Defined.

(** X12. A freshly constructed matrix of the receiver's shape is neutral:
    subtracting it leaves the receiver exactly as it was, and adding it
    leaves every element as it was except [-0], which becomes [+0]. *)
Theorem zero_matrix_is_neutral (self : Matrix) :
  wf self ->
  call (subtract (new_Matrix (rows self) (columns self))) self = Some self
  /\ forall i x, array self !! i = Some x ->
       (x <> neg_zero ->
        buffer_after (add (new_Matrix (rows self) (columns self))) self !! i = Some x)
       /\ (x = neg_zero ->
           buffer_after (add (new_Matrix (rows self) (columns self))) self !! i
           = Some 0%float).
Proof.
  intros Hwf.
  assert (Hd : same_dimensions self (new_Matrix (rows self) (columns self)) = true).
  { apply same_dimensions_true. split; reflexivity. }
  assert (Hz : forall i x, array self !! i = Some x ->
            elem (zeros (rows self * columns self)) i = 0%float).
  { intros i x Hx. apply elem_zeros. rewrite <- Hwf. eapply lookup_lt_Some. exact Hx. }
  split.
  - unfold call, subtract. rewrite (elementwise_accepts _ _ _ _ Hd).
    cbn [value_of this array new_Matrix].
    transitivity (Some (mkMatrix (rows self) (columns self) (array self)));
      [|rewrite matrix_eta; reflexivity].
    do 2 f_equal.
    apply list_eq. intros i. rewrite list_lookup_imap.
    destruct (array self !! i) as [x|] eqn:Hx; [|reflexivity]. simpl.
    rewrite (Hz i x Hx), float_sub_zero. reflexivity.
  - intros i x Hx. unfold buffer_after, add.
    rewrite (elementwise_accepts _ _ _ _ Hd). cbn [snd this array new_Matrix].
    rewrite list_lookup_imap, Hx. simpl. rewrite (Hz i x Hx). split.
    + intros Hneg. rewrite (float_add_zero x Hneg). reflexivity.
    + intros ->. reflexivity.
Qed.

Lemma zero_matrix_is_neutral_witness :
  let self := mkMatrix 1 3 [(-0)%float; nan; 7%float] in
  wf self /\
  (call (subtract (new_Matrix (rows self) (columns self))) self = Some self
   /\ forall i x, array self !! i = Some x ->
        (x <> neg_zero ->
         buffer_after (add (new_Matrix (rows self) (columns self))) self !! i = Some x)
        /\ (x = neg_zero ->
            buffer_after (add (new_Matrix (rows self) (columns self))) self !! i
            = Some 0%float)).
Proof.
  split; [reflexivity|].
  apply (zero_matrix_is_neutral (mkMatrix 1 3 [(-0)%float; nan; 7%float])).
  reflexivity.
Defined.

(** X13. With an empty inner dimension ([self.columns = a.rows = 0]) every
    sum is empty: [multiply] gives the zero matrix of shape
    [self.rows x a.columns]. *)
Theorem multiply_empty_inner (self a : Matrix) :
  columns self = 0 -> rows a = 0 ->
  call (multiply a) self = Some (new_Matrix (rows self) (columns a)).
Proof.
  intros Hc Hr. rewrite call_multiply by congruence. unfold new_Matrix. do 2 f_equal.
  destruct (product_buffer_spec self a) as [Hlen Hcells]; [congruence|].
  apply (grid_ext (rows self) (columns a)); [exact Hlen|apply zeros_length|].
  intros i j Hi Hj. rewrite (Hcells i j Hi Hj).
  unfold zeros. rewrite lookup_replicate_2 by (apply row_major_bound; assumption).
  unfold dot. rewrite Hc. reflexivity.
Qed.

Lemma multiply_empty_inner_witness :
  let self := new_Matrix 2 0 in
  let a := new_Matrix 0 3 in
  (columns self = 0 /\ rows a = 0) /\
  call (multiply a) self = Some (new_Matrix (rows self) (columns a)).
Proof.
  split; [split; reflexivity|].
  apply (multiply_empty_inner (new_Matrix 2 0) (new_Matrix 0 3)); reflexivity.
Defined.

(** X14. Transposing a row vector or a column vector only swaps [rows] and
    [columns]: the buffer keeps its contents. *)
Theorem transpose_vector_keeps_buffer (self : Matrix) :
  wf self -> rows self = 1 \/ columns self = 1 ->
  call transpose self = Some (mkMatrix (columns self) (rows self) (array self)).
Proof.
  intros Hwf Hvec. rewrite call_transpose. do 2 f_equal.
  destruct (transposed_buffer_spec self) as [Hlen Hcells].
  apply (grid_ext (rows self) (columns self)); [exact Hlen|exact Hwf|].
  intros i j Hi Hj.
  assert (Hidx : i * columns self + j = j * rows self + i) by (destruct Hvec; nia).
  rewrite Hidx at 1. rewrite (Hcells i j Hi Hj). symmetry.
  apply lookup_elem. rewrite Hwf. apply row_major_bound; assumption.
Qed.

Lemma transpose_vector_keeps_buffer_witness :
  let self := mkMatrix 1 3 [1; 2; 3]%float in
  (wf self /\ (rows self = 1 \/ columns self = 1)) /\
  call transpose self = Some (mkMatrix (columns self) (rows self) (array self)).
Proof.
  split; [split; [reflexivity|left; reflexivity]|].
  apply (transpose_vector_keeps_buffer (mkMatrix 1 3 [1; 2; 3]%float));
    [reflexivity|left; reflexivity].
Defined.

Lemma call_elementwise verb op (a self : Matrix) :
  rows self = rows a -> columns self = columns a ->
  call (elementwise verb op a) self
  = Some (mkMatrix (rows self) (columns self)
            (imap (fun i x => op x (elem (array a) i)) (array self))).
Proof.
  intros Hr Hc. unfold call.
  rewrite elementwise_accepts by (apply same_dimensions_true; auto). reflexivity.
Qed.

(** X15. Scaling commutes with transposing: on a receiver whose buffer has
    [rows * columns] elements, [m.transpose().multiplyByScalar(s)] and
    [m.multiplyByScalar(s).transpose()] give the same matrix. *)
Theorem scalar_commutes_with_transpose (self : Matrix) (s : float) :
  wf self ->
  call transpose self ≫= call (multiplyByScalar s)
  = call (multiplyByScalar s) self ≫= call transpose.
Proof.
  intros Hwf. rewrite call_transpose, call_multiplyByScalar. simpl.
  rewrite call_transpose, call_multiplyByScalar. simpl. do 2 f_equal.
  set (S := mkMatrix (rows self) (columns self)
              ((fun x => (x * s)%float) <$> array self)).
  destruct (transposed_buffer_spec self) as [Hlen Hcells].
  destruct (transposed_buffer_spec S) as [HlenS HcellsS]. simpl in HlenS, HcellsS.
  apply (grid_ext (columns self) (rows self)).
  - rewrite length_fmap. lia.
  - lia.
  - intros j i Hj Hi.
    rewrite list_lookup_fmap, (Hcells i j Hi Hj), (HcellsS i j Hi Hj). simpl. f_equal.
    symmetry. apply elem_lookup. rewrite list_lookup_fmap.
    rewrite (lookup_elem (array self) (i * columns self + j)); [reflexivity|].
    rewrite Hwf. apply row_major_bound; assumption.
Qed.

Lemma scalar_commutes_with_transpose_witness :
  let self := mkMatrix 2 3 [1; 2; 3; 4; 5; 6]%float in
  wf self /\
  (call transpose self ≫= call (multiplyByScalar 3)
   = call (multiplyByScalar 3) self ≫= call transpose).
Proof.
  split; [reflexivity|].
  apply (scalar_commutes_with_transpose (mkMatrix 2 3 [1; 2; 3; 4; 5; 6]%float)).
  reflexivity.
Defined.

(** X16. [add], [subtract] and [hadamardProduct] commute with transposing:
    for a receiver whose buffer has [rows * columns] elements and an argument
    of the same shape, combining and then transposing gives the same matrix
    as transposing both and then combining. *)
Theorem elementwise_commutes_with_transpose (A B : Matrix) :
  wf A -> rows A = rows B -> columns A = columns B ->
  forall m : Matrix -> Method Ref,
    m = add \/ m = subtract \/ m = hadamardProduct ->
    call (m B) A ≫= call transpose
    = (Bt ← call transpose B; call transpose A ≫= call (m Bt)).
Proof.
  intros Hwf Hr Hc.
  assert (Hop : forall verb op,
    call (elementwise verb op B) A ≫= call transpose
    = (Bt ← call transpose B; call transpose A ≫= call (elementwise verb op Bt))).
  { intros verb op. rewrite (call_elementwise _ _ _ _ Hr Hc), !call_transpose. simpl.
    rewrite call_transpose, call_elementwise by (simpl; congruence). simpl.
    do 2 f_equal.
    set (S := mkMatrix (rows A) (columns A)
                (imap (fun i x => op x (elem (array B) i)) (array A))).
    destruct (transposed_buffer_spec A) as [Hlen Hcells].
    destruct (transposed_buffer_spec S) as [HlenS HcellsS]. simpl in HlenS, HcellsS.
    apply (grid_ext (columns A) (rows A)).
    - lia.
    - rewrite length_imap. lia.
    - intros j i Hj Hi.
      rewrite list_lookup_imap, (Hcells i j Hi Hj), (HcellsS i j Hi Hj). simpl. f_equal.
      apply elem_lookup. rewrite list_lookup_imap.
      rewrite (lookup_elem (array A) (i * columns A + j))
        by (rewrite Hwf; apply row_major_bound; assumption).
      simpl. do 2 f_equal. rewrite Hr, Hc. symmetry.
      apply elem_transposed; congruence. }
  intros m [-> | [-> | ->]]; apply Hop.
Qed.

Lemma elementwise_commutes_with_transpose_witness :
  let A := mkMatrix 2 3 [1; 2; 3; 4; 5; 6]%float in
  let B := mkMatrix 2 3 [6; 5; 4; 3; 2; 1]%float in
  (wf A /\ rows A = rows B /\ columns A = columns B) /\
  (call (subtract B) A ≫= call transpose
   = (Bt ← call transpose B; call transpose A ≫= call (subtract Bt))).
Proof.
  split; [repeat split|].
  apply (elementwise_commutes_with_transpose
           (mkMatrix 2 3 [1; 2; 3; 4; 5; 6]%float)
           (mkMatrix 2 3 [6; 5; 4; 3; 2; 1]%float)); try reflexivity.
  right. left. reflexivity.
Defined.

(** X17. [hadamardProduct] with a matrix of the receiver's shape whose
    elements all equal [s] is [multiplyByScalar(s)]. *)
Theorem hadamardProduct_by_constant (self : Matrix) (s : float) :
  wf self ->
  call (hadamardProduct
          (mkMatrix (rows self) (columns self)
                    (replicate (rows self * columns self) s))) self
  = call (multiplyByScalar s) self.
Proof.
  intros Hwf. rewrite call_multiplyByScalar. unfold hadamardProduct.
  rewrite call_elementwise by reflexivity. simpl. do 2 f_equal.
  apply list_eq. intros i. rewrite list_lookup_imap, list_lookup_fmap.
  destruct (array self !! i) as [x|] eqn:Hx; [|reflexivity]. simpl. do 2 f_equal.
  apply elem_lookup, lookup_replicate_2. rewrite <- Hwf.
  eapply lookup_lt_Some. exact Hx.
Qed.

Lemma hadamardProduct_by_constant_witness :
  let self := mkMatrix 2 2 [1; 2; 3; 4]%float in
  wf self /\
  call (hadamardProduct
          (mkMatrix (rows self) (columns self)
                    (replicate (rows self * columns self) 5%float))) self
  = call (multiplyByScalar 5) self.
Proof.
  split; [reflexivity|].
  apply (hadamardProduct_by_constant (mkMatrix 2 2 [1; 2; 3; 4]%float) 5%float).
  reflexivity.
Defined.

(** X18. Transposing a freshly constructed [r x c] matrix gives the freshly
    constructed [c x r] matrix, zero dimensions included. *)
Theorem transpose_of_new_Matrix (r c : nat) :
  call transpose (new_Matrix r c) = Some (new_Matrix c r).
Proof.
  rewrite call_transpose. unfold new_Matrix at 1 2 4. simpl. do 2 f_equal.
  destruct (transposed_buffer_spec (new_Matrix r c)) as [Hlen Hcells].
  simpl in Hlen, Hcells.
  apply (grid_ext c r); [lia|apply zeros_length|].
  intros j i Hj Hi. rewrite (Hcells i j Hi Hj).
  rewrite elem_zeros by (apply row_major_bound; assumption).
  symmetry. apply lookup_replicate_2. apply row_major_bound; assumption.
Qed.

Lemma call_clone (m : Matrix) : call clone m = Some m.
Proof. unfold call. rewrite clone_run. simpl. rewrite matrix_eta. reflexivity. Qed.

(** X19. [set] with a matrix of the receiver's shape makes the receiver
    equal to the argument in rows, columns and buffer, whatever the
    receiver held, and [m.set(a.clone())] does the same. *)
Theorem set_matrix_copies (self a : Matrix) :
  rows self = rows a -> columns self = columns a ->
  call (set (FromMatrix a)) self = Some a
  /\ (call clone a ≫= fun c => call (set (FromMatrix c)) self) = Some a.
Proof.
  intros Hr Hc.
  assert (Hset : call (set (FromMatrix a)) self = Some a).
  { unfold call. rewrite set_matrix_accepts by (apply same_dimensions_true; auto).
    simpl. rewrite Hr, Hc, matrix_eta. reflexivity. }
  split; [exact Hset|].
  rewrite call_clone. exact Hset.
Qed.

Lemma set_matrix_copies_witness :
  let self := mkMatrix 1 2 [1; 2]%float in
  let a := mkMatrix 1 2 [3; 4]%float in
  (rows self = rows a /\ columns self = columns a) /\
  (call (set (FromMatrix a)) self = Some a
   /\ (call clone a ≫= fun c => call (set (FromMatrix c)) self) = Some a).
Proof.
  split; [split; reflexivity|].
  apply (set_matrix_copies (mkMatrix 1 2 [1; 2]%float) (mkMatrix 1 2 [3; 4]%float));
    reflexivity.
Defined.

(** X20. The in-place loops compute what [map] computes:
    [multiplyByScalar(s)] is [map(x => x * s)], and on matrices of equal
    shape [add(a)] is [map((x, i) => x + a.array[i])]. *)
Theorem in_place_loops_are_maps (self a : Matrix) (s : float) :
  run (multiplyByScalar s) self = run (map (fun x _ _ => (x * s)%float)) self
  /\ (rows self = rows a -> columns self = columns a ->
      run (add a) self = run (map (fun x i _ => (x + elem (array a) i)%float)) self).
Proof.
  split.
  - rewrite multiplyByScalar_run, map_run. do 3 f_equal.
    symmetry. apply (imap_const (fun x => (x * s)%float)).
  - intros Hr Hc. unfold add.
    rewrite elementwise_accepts by (apply same_dimensions_true; auto).
    rewrite map_run. reflexivity.
Qed.

(** X21. The product of a matrix with its own transpose is symmetric, bit
    for bit: for a receiver whose buffer has [rows * columns] elements,
    transposing [A.multiply(At)], where [At] is the transpose of [A], gives
    [A.multiply(At)] back. *)
Theorem product_with_transpose_symmetric (A : Matrix) :
  wf A ->
  (At ← call transpose A; call (multiply At) A ≫= call transpose)
  = (At ← call transpose A; call (multiply At) A)
  /\ exists buffer,
       (At ← call transpose A; call (multiply At) A)
       = Some (mkMatrix (rows A) (rows A) buffer).
Proof.
  intros Hwf. rewrite call_transpose. simpl.
  set (At := mkMatrix (columns A) (rows A) (transposed_buffer A)).
  assert (Hinner : columns A = rows At) by reflexivity.
  destruct (product_transposed A At Hinner) as [Heq _].
  unfold transpose_of_product, product_of_transposes in Heq.
  split; [|rewrite (call_multiply _ _ Hinner); eexists; reflexivity].
  rewrite Heq. rewrite !call_transpose. simpl.
  subst At. simpl. rewrite (transposed_twice_buffer A Hwf), matrix_eta. reflexivity.
Qed.

Lemma product_with_transpose_symmetric_witness :
  let A := mkMatrix 2 3 [1; 2; 3; 4; 5; 6]%float in
  wf A /\
  ((At ← call transpose A; call (multiply At) A ≫= call transpose)
   = (At ← call transpose A; call (multiply At) A)
   /\ exists buffer,
        (At ← call transpose A; call (multiply At) A)
        = Some (mkMatrix (rows A) (rows A) buffer)).
Proof.
  split; [reflexivity|].
  apply (product_with_transpose_symmetric (mkMatrix 2 3 [1; 2; 3; 4; 5; 6]%float)).
  reflexivity.
Defined.
